(** * Frame-skipping Pong agent (Day04/add_FrameSkip.py)

    A shallow embedding of [PongAgent] and of the part of numpy and of the
    TFLite interpreter that [PongAgent.get_action] touches, followed by the
    properties of the frame-skip decision cache.

    Python integers are unbounded, so [frame_count], [frame_skip] and the
    action are [Z].  A Python method that mutates [self] and may raise is a
    function from the object to an outcome (an exception or a value) and
    the object as the call leaves it: what was assigned before a raise stays
    assigned. *)

From Stdlib Require Import String ZArith QArith List Bool Lia.
Import ListNotations.
Local Open Scope Z_scope.

(** ** Exceptions *)

Inductive exn : Type :=
| ZeroDivisionError   (* integer modulo by zero *)
| IndexError          (* subscript out of range *)
| ValueError          (* numpy / interpreter argument error *)
| RuntimeError.       (* interpreter failure *)

(** An outcome of a call: [inl e] is "raised e", [inr v] is "returned v". *)
Definition result (A : Type) : Type := (exn + A)%type.

(** ** Stateful, fallible computations on an object of type [S] *)

Definition M (S A : Type) : Type := S -> result A * S.

Definition ret {S A} (v : A) : M S A := fun s => (inr v, s).

Definition bind {S A B} (m : M S A) (k : A -> M S B) : M S B :=
  fun s =>
    match m s with
    | (inl e, s') => (inl e, s')
    | (inr v, s') => k v s'
    end.

Definition gets {S A} (f : S -> A) : M S A := fun s => (inr (f s), s).

Definition modify {S} (f : S -> S) : M S unit := fun s => (inr tt, f s).

Definition lift {S A} (r : result A) : M S A := fun s => (r, s).

Declare Scope py_scope.
Delimit Scope py_scope with py.
Notation "x <- m ;; k" := (bind m (fun x => k))
  (at level 61, m at next level, right associativity) : py_scope.
Notation "m ;; k" := (bind m (fun _ => k))
  (at level 61, right associativity) : py_scope.

(** ** float32 values, as far as comparisons see them

    [np.argmax] only compares scores.  Under comparison a float32 is a
    NaN, an infinity or a rational (the two zeros compare equal). *)

Module Float32.

Inductive t : Type :=
| NaN
| NegInf
| Finite (q : Q)
| PosInf.

Definition isnan (x : t) : bool :=
  match x with NaN => true | _ => false end.

(** IEEE [x <= y]: false as soon as one side is a NaN. *)
Definition leb (x y : t) : bool :=
  match x, y with
  | NaN, _ | _, NaN => false
  | NegInf, _ => true
  | _, PosInf => true
  | Finite p, Finite q => Qle_bool p q
  | _, _ => false
  end.

(** The order numpy sorts and maximises by: the IEEE order on numbers,
    with NaN above every number. *)
Definition le (x y : t) : Prop := isnan y = true \/ leb x y = true.

Definition lt (x y : t) : Prop := le x y /\ ~ le y x.

End Float32.

Definition StateVector : Type := list Float32.t.
Definition Tensor : Type := list (list Float32.t).

(** ** numpy *)

(** The scan of [np.argmax] over a non-empty 1-d float array: [mp] is the
    running maximum, [best] its index, [i] the index of the head of [xs].
    An element replaces the maximum when [not (x <= mp)]; a NaN ends the
    scan. *)
Fixpoint argmax_scan (mp : Float32.t) (best i : nat) (xs : list Float32.t) : nat :=
  match xs with
  | [] => best
  | x :: rest =>
      if Float32.leb x mp then argmax_scan mp best (S i) rest
      else if Float32.isnan x then i
      else argmax_scan x i (S i) rest
  end.

Definition np_argmax (v : list Float32.t) : result Z :=
  match v with
  | [] => inl ValueError   (* attempt to get argmax of an empty sequence *)
  | x :: rest =>
      if Float32.isnan x then inr 0
      else inr (Z.of_nat (argmax_scan x 0 1 rest))
  end.

(** [a[i]] on a sequence. *)
Definition subscript {A} (a : list A) (i : nat) : result A :=
  match nth_error a i with
  | Some x => inr x
  | None => inl IndexError
  end.

(** [a % b] on Python integers: floor modulo (the sign of the divisor),
    raising on a zero divisor. *)
Definition py_mod (a b : Z) : result Z :=
  if b =? 0 then inl ZeroDivisionError else inr (a mod b).

(** ** The TFLite interpreter

    The interpreter object of lines 20-27, with one input and one output
    tensor.  [graph] is the loaded model: what [invoke()] computes from the
    input tensor, or the error the interpreter reports for it (a shape or
    type the model does not accept, a failing kernel).  [invoke_log]
    records the input of every [invoke()] made on this object, newest
    first. *)

Record Interpreter : Type := mkInterpreter {
  graph : Tensor -> result Tensor;
  input_tensor : Tensor;
  output_tensor : Tensor;
  invoke_log : list Tensor
}.

Definition set_tensor (value : Tensor) : M Interpreter unit :=
  modify (fun ip =>
    mkInterpreter (graph ip) value (output_tensor ip) (invoke_log ip)).

Definition invoke : M Interpreter unit :=
  fun ip =>
    let logged := input_tensor ip :: invoke_log ip in
    match graph ip (input_tensor ip) with
    | inl e =>
        (inl e, mkInterpreter (graph ip) (input_tensor ip) (output_tensor ip) logged)
    | inr out =>
        (inr tt, mkInterpreter (graph ip) (input_tensor ip) out logged)
    end.

Definition get_tensor : M Interpreter Tensor := gets output_tensor.

(** ** PongAgent *)

Module PongAgent.

Record t : Type := mk {
  interpreter : Interpreter;
  frame_skip : Z;
  frame_count : Z;
  last_action : Z
}.

(** Run a method of [self.interpreter]. *)
Definition on_interpreter {A} (m : M Interpreter A) : M t A :=
  fun self =>
    let (r, ip) := m (interpreter self) in
    (r, mk ip (frame_skip self) (frame_count self) (last_action self)).

Definition set_frame_count (n : Z) : M t unit :=
  modify (fun self => mk (interpreter self) (frame_skip self) n (last_action self)).

Definition set_last_action (a : Z) : M t unit :=
  modify (fun self => mk (interpreter self) (frame_skip self) (frame_count self) a).

Section Construction.

(** [tflite.Interpreter(model_path=..., num_threads=2)] followed by
    [allocate_tensors()] and the two [get_*_details()] calls: the
    interpreter ready for use, or the exception one of them raises. *)
Variable tflite_Interpreter : string -> result Interpreter.

(** Lines 13-35.  [frame_skip] is stored as given; the two [print] calls
    only write to the console and are left out. *)
Definition __init__ (model_path : string) (frame_skip : Z) : result t :=
  match tflite_Interpreter model_path with
  | inl e => inl e
  | inr ip => inr (mk ip frame_skip 0 1)
  end.

End Construction.

Local Open Scope py_scope.

(** Lines 37-68. *)
Definition get_action (state : StateVector) : M t Z :=
  n <- gets frame_count ;;
  set_frame_count (n + 1) ;;
  n <- gets frame_count ;;
  k <- gets frame_skip ;;
  r <- lift (py_mod n k) ;;
  (if r =? 0 then
     let input_data : Tensor := [state] in
     on_interpreter (set_tensor input_data) ;;
     on_interpreter invoke ;;
     output <- on_interpreter get_tensor ;;
     row <- lift (subscript output 0) ;;
     a <- lift (np_argmax row) ;;
     set_last_action a
   else ret tt) ;;
  gets last_action.

End PongAgent.

Import PongAgent.

(** ** The control loop

    One [get_action] per state, in order; the caller keeps going after a
    call that raised. *)
Fixpoint run (self : PongAgent.t) (states : list StateVector)
  : list (result Z) * PongAgent.t :=
  match states with
  | [] => ([], self)
  | s :: rest =>
      let (r, self1) := get_action s self in
      let (rs, self2) := run self1 rest in
      (r :: rs, self2)
  end.

(** ** Vocabulary of the properties *)

(** The number of backend invocations an agent's interpreter has seen. *)
Definition infer_calls (self : PongAgent.t) : nat :=
  length (invoke_log (interpreter self)).

(** Tick [n] (counted from 1) is an inference tick for skip [k]: the test
    of line 50 is evaluated and holds. *)
Definition inference_tick (k n : Z) : bool :=
  match py_mod n k with
  | inr r => r =? 0
  | inl _ => false
  end.

(** What one consultation of the backend yields for [state] (lines 52-65):
    the action chosen from the scores, or the exception raised on the way. *)
Definition infer_action (ip : Interpreter) (state : StateVector) : result Z :=
  match graph ip [state] with
  | inl e => inl e
  | inr out =>
      match subscript out 0 with
      | inl e => inl e
      | inr row => np_argmax row
      end
  end.

(** The interpreter after one consultation for [state]. *)
Definition infer_interpreter (ip : Interpreter) (state : StateVector) : Interpreter :=
  mkInterpreter (graph ip) [state]
    (match graph ip [state] with inl _ => output_tensor ip | inr out => out end)
    ([state] :: invoke_log ip).

(** The agent straight after construction on interpreter [ip]. *)
Definition fresh (ip : Interpreter) (k : Z) : PongAgent.t := PongAgent.mk ip k 0 1.

Definition LEFT : Z := 0.
Definition STAY : Z := 1.
Definition RIGHT : Z := 2.

Definition valid_action (a : Z) : Prop := a = LEFT \/ a = STAY \/ a = RIGHT.

(** The backend returns a ScoreVector of exactly three scores whenever it
    returns: row 0 of the output tensor exists and has length 3. *)
Definition three_scores (ip : Interpreter) : Prop :=
  forall input out,
    graph ip input = inr out ->
    exists row, nth_error out 0 = Some row /\ length row = 3%nat.

(** Two interpreters hold the same model: as functions of the input tensor
    they compute the same thing.  Their tensors and logs may differ. *)
Definition same_backend (ip1 ip2 : Interpreter) : Prop :=
  forall input, graph ip1 input = graph ip2 input.

(** The actions returned on the successful inference ticks of a run whose
    first call is tick [tick], oldest first. *)
Fixpoint inferred_actions (k tick : Z) (outs : list (result Z)) : list Z :=
  match outs with
  | [] => []
  | r :: rest =>
      match r with
      | inr a => if inference_tick k tick then [a] else []
      | inl _ => []
      end ++ inferred_actions k (tick + 1) rest
  end.

(** The action returned on the most recent successful inference tick of the
    calls made so far, STAY when there is none. *)
Definition cached_action (k : Z) (outs : list (result Z)) : Z :=
  last (inferred_actions k 1 outs) STAY.

(** ** A scripted backend

    A stand-in for a loaded model, as a test double would script it: one
    row of five inputs gives the scores [0.1, 0.2, 0.9]; anything else is
    rejected. *)

Definition demo_scores : list Float32.t :=
  [Float32.Finite (1 # 10); Float32.Finite (2 # 10); Float32.Finite (9 # 10)].

Definition demo_graph (input : Tensor) : result Tensor :=
  match input with
  | [row] => if (length row =? 5)%nat then inr [demo_scores] else inl ValueError
  | _ => inl ValueError
  end.

Definition demo_interpreter : Interpreter := mkInterpreter demo_graph [] [] [].

Definition demo_loader (model_path : string) : result Interpreter :=
  if String.eqb model_path "pong_model.tflite" then inr demo_interpreter
  else inl ValueError.

Definition demo_state : StateVector :=
  [Float32.Finite (1 # 2); Float32.Finite (1 # 2); Float32.Finite (1 # 2);
   Float32.Finite (1 # 10); Float32.Finite (1 # 10)].

(** A backend whose first two scores tie: [0.5, 0.5, 0.3]. *)
Definition tie_scores : list Float32.t :=
  [Float32.Finite (1 # 2); Float32.Finite (1 # 2); Float32.Finite (3 # 10)].

Definition tie_interpreter : Interpreter :=
  mkInterpreter (fun _ => inr [tie_scores]) [] [] [].

(** The same model in an interpreter that has been used before: its
    tensors and its log are not empty. *)
Definition warm_interpreter : Interpreter :=
  mkInterpreter demo_graph [demo_state] [tie_scores] [[demo_state]].

Definition warm_loader (model_path : string) : result Interpreter :=
  inr warm_interpreter.

(** ** The demonstration script (lines 75-107) *)

(** [l[i]] on a Python list with an integer index: a negative index counts
    from the end, anything outside [-len, len) raises. *)
Definition list_getitem {A} (l : list A) (i : Z) : result A :=
  let n := Z.of_nat (length l) in
  if (0 <=? i) && (i <? n) then subscript l (Z.to_nat i)
  else if (- n <=? i) && (i <? 0) then subscript l (Z.to_nat (n + i))
  else inl IndexError.

(** Line 100. *)
Definition action_names : list string :=
  ["←왼쪽"%string; "정지"%string; "→오른쪽"%string].

(** What the script writes to the console, one constructor per [print]. *)
Inductive line : Type :=
| ModelLoaded                                  (* line 34 *)
| FrameSkipInfo (frame_skip : Z)               (* line 35 *)
| GameStart                                    (* line 83 *)
| FrameAction (frame : nat) (name : string)    (* line 102 *)
| GameOver.                                    (* line 107 *)

(** The body of the [for] loop of lines 85-105 over the frames still to
    play.  [draw frame] is the state built at lines 88-94 from that frame's
    three random draws.  An exception ends the loop where it is raised;
    [time.sleep] is left out. *)
Fixpoint game_loop (draw : nat -> StateVector) (frames : list nat)
  (agent : PongAgent.t) (console : list line)
  : result unit * PongAgent.t * list line :=
  match frames with
  | [] => (inr tt, agent, console)
  | frame :: rest =>
      match get_action (draw frame) agent with
      | (inl e, agent1) => (inl e, agent1, console)
      | (inr action, agent1) =>
          if (frame mod 10 =? 0)%nat then
            match list_getitem action_names action with
            | inl e => (inl e, agent1, console)
            | inr name =>
                game_loop draw rest agent1 (console ++ [FrameAction frame name])
            end
          else game_loop draw rest agent1 console
      end
  end.

(** The script: how it ends, the agent it leaves (when one was built) and
    the console.  The two lines [__init__] prints on success open the
    console. *)
Definition main (tflite_Interpreter : string -> result Interpreter)
  (draw : nat -> StateVector)
  : result unit * option PongAgent.t * list line :=
  match __init__ tflite_Interpreter "pong_model.tflite" 4 with
  | inl e => (inl e, None, [])
  | inr agent =>
      match game_loop draw (seq 0 100) agent
              [ModelLoaded; FrameSkipInfo 4; GameStart] with
      | (inl e, agent1, console) => (inl e, Some agent1, console)
      | (inr _, agent1, console) => (inr tt, Some agent1, console ++ [GameOver])
      end
  end.

(** ** Vocabulary of the further properties *)

(** The inputs of the inference ticks of a run whose first call is tick
    [tick], oldest first: each state as a batch of one row. *)
Fixpoint inference_inputs (k tick : Z) (states : list StateVector) : list Tensor :=
  match states with
  | [] => []
  | s :: rest =>
      (if inference_tick k tick then [[s]] else [])
      ++ inference_inputs k (tick + 1) rest
  end.

(** The frame a console line reports, if it reports one. *)
Definition line_frame (l : line) : option nat :=
  match l with
  | FrameAction frame _ => Some frame
  | _ => None
  end.

(** The name the script prints for an action (empty where the lookup
    raises). *)
Definition action_name (a : Z) : string :=
  match list_getitem action_names a with
  | inr name => name
  | inl _ => EmptyString
  end.

(** The frame lines a stretch of the loop prints, given what its calls
    returned. *)
Fixpoint frame_lines (frames : list nat) (outs : list (result Z)) : list line :=
  match frames, outs with
  | frame :: frames', inr action :: outs' =>
      (if (frame mod 10 =? 0)%nat then [FrameAction frame (action_name action)]
       else [])
      ++ frame_lines frames' outs'
  | _, _ => []
  end.

(** The action one consultation of the backend selects for [state] (STAY
    where the consultation raises). *)
Definition decision (ip : Interpreter) (state : StateVector) : Z :=
  match infer_action ip state with
  | inr a => a
  | inl _ => STAY
  end.

(** A backend that returns an output tensor with no row. *)
Definition mute_interpreter : Interpreter :=
  mkInterpreter (fun _ => inr []) [] [] [].

(** A backend whose scores hold NaNs: [0.9, NaN, NaN]. *)
Definition nan_scores : list Float32.t :=
  [Float32.Finite (9 # 10); Float32.NaN; Float32.NaN].

Definition nan_interpreter : Interpreter :=
  mkInterpreter (fun _ => inr [nan_scores]) [] [] [].



(** The index of the first NaN of a row. *)
Fixpoint first_nan (v : list Float32.t) : option nat :=
  match v with
  | [] => None
  | x :: rest =>
      if Float32.isnan x then Some 0%nat
      else option_map S (first_nan rest)
  end.

(** ** One call of [get_action], case by case *)

Lemma get_action_zero_skip s self :
  frame_skip self = 0 ->
  get_action s self =
    (inl ZeroDivisionError,
     PongAgent.mk (interpreter self) 0 (frame_count self + 1) (last_action self)).
Proof.
  intros H. destruct self as [ip k c la]; simpl in *; subst k.
  reflexivity.
Qed.

Lemma get_action_skip s self :
  frame_skip self <> 0 ->
  inference_tick (frame_skip self) (frame_count self + 1) = false ->
  get_action s self =
    (inr (last_action self),
     PongAgent.mk (interpreter self) (frame_skip self) (frame_count self + 1)
       (last_action self)).
Proof.
  intros Hk Ht. destruct self as [ip k c la]; simpl in *.
  unfold inference_tick, py_mod in Ht.
  unfold get_action, bind, gets, set_frame_count, modify, lift, py_mod; simpl.
  apply Z.eqb_neq in Hk. rewrite Hk in *. rewrite Ht. reflexivity.
Qed.

Lemma get_action_infer s self :
  inference_tick (frame_skip self) (frame_count self + 1) = true ->
  get_action s self =
    (infer_action (interpreter self) s,
     PongAgent.mk (infer_interpreter (interpreter self) s) (frame_skip self)
       (frame_count self + 1)
       (match infer_action (interpreter self) s with
        | inl _ => last_action self
        | inr a => a
        end)).
Proof.
  intros Ht. destruct self as [ip k c la]; simpl in *.
  unfold inference_tick, py_mod in Ht.
  unfold get_action, bind, gets, set_frame_count, modify, lift, py_mod; simpl.
  destruct (k =? 0); [discriminate |]. rewrite Ht.
  unfold infer_action, infer_interpreter, on_interpreter, invoke, get_tensor,
    set_tensor, set_last_action, modify, gets; simpl.
  destruct (graph ip [s]) as [e | out]; simpl; [reflexivity |].
  destruct (subscript out 0) as [e | row]; simpl; [reflexivity |].
  destruct (np_argmax row) as [e | a]; reflexivity.
Qed.

(** Split a call of [get_action] into its three cases: a zero skip, an
    inference tick, a skipped tick. *)
Ltac step_cases s self :=
  let Hk := fresh "Hk" in
  let Ht := fresh "Ht" in
  destruct (Z.eq_dec (frame_skip self) 0) as [Hk | Hk];
  [ rewrite (get_action_zero_skip s self Hk)
  | destruct (inference_tick (frame_skip self) (frame_count self + 1)) eqn:Ht;
    [ rewrite (get_action_infer s self Ht)
    | rewrite (get_action_skip s self Hk Ht) ] ].

Lemma inference_tick_zero n : inference_tick 0 n = false.
Proof. reflexivity. Qed.

Lemma get_action_frame_count s self :
  frame_count (snd (get_action s self)) = frame_count self + 1.
Proof. step_cases s self; reflexivity. Qed.

Lemma get_action_frame_skip s self :
  frame_skip (snd (get_action s self)) = frame_skip self.
Proof. step_cases s self; simpl; congruence. Qed.

Lemma get_action_graph s self :
  graph (interpreter (snd (get_action s self))) = graph (interpreter self).
Proof. step_cases s self; reflexivity. Qed.

Lemma get_action_invoke_log s self :
  invoke_log (interpreter (snd (get_action s self))) =
    if inference_tick (frame_skip self) (frame_count self + 1)
    then [s] :: invoke_log (interpreter self)
    else invoke_log (interpreter self).
Proof.
  step_cases s self; simpl; try reflexivity.
  rewrite Hk. reflexivity.
Qed.

(** ** Runs *)

Lemma run_cons self s rest :
  run self (s :: rest) =
    (fst (get_action s self) :: fst (run (snd (get_action s self)) rest),
     snd (run (snd (get_action s self)) rest)).
Proof.
  simpl. destruct (get_action s self) as [r self1]. simpl.
  destruct (run self1 rest) as [rs self2]. reflexivity.
Qed.

Lemma run_app self pre post :
  run self (pre ++ post) =
    (fst (run self pre) ++ fst (run (snd (run self pre)) post),
     snd (run (snd (run self pre)) post)).
Proof.
  revert self. induction pre as [| s pre IH]; intros self.
  - simpl. destruct (run self post); reflexivity.
  - rewrite <- app_comm_cons, !run_cons, IH. reflexivity.
Qed.

Lemma run_length self states :
  length (fst (run self states)) = length states.
Proof.
  revert self. induction states as [| s rest IH]; intros self; [reflexivity |].
  rewrite run_cons. simpl. now rewrite IH.
Qed.

Lemma run_frame_skip self states :
  frame_skip (snd (run self states)) = frame_skip self.
Proof.
  revert self. induction states as [| s rest IH]; intros self; [reflexivity |].
  rewrite run_cons. simpl. now rewrite IH, get_action_frame_skip.
Qed.

Lemma run_frame_count self states :
  frame_count (snd (run self states)) = frame_count self + Z.of_nat (length states).
Proof.
  revert self. induction states as [| s rest IH]; intros self.
  - simpl. lia.
  - rewrite run_cons. cbn [snd length]. rewrite IH, get_action_frame_count. lia.
Qed.

Lemma run_graph self states :
  graph (interpreter (snd (run self states))) = graph (interpreter self).
Proof.
  revert self. induction states as [| s rest IH]; intros self; [reflexivity |].
  rewrite run_cons. simpl. now rewrite IH, get_action_graph.
Qed.

Lemma init_fresh load path k a0 :
  __init__ load path k = inr a0 ->
  exists ip, load path = inr ip /\ a0 = fresh ip k.
Proof.
  unfold __init__. destruct (load path) as [e | ip]; [discriminate |].
  intros H. injection H as <-. now exists ip.
Qed.

(** ** Counting inference ticks *)

Lemma div_succ k c :
  1 <= k ->
  (c + 1) / k = c / k + (if (c + 1) mod k =? 0 then 1 else 0).
Proof.
  intros Hk.
  destruct ((c + 1) mod k =? 0) eqn:E.
  - apply Z.eqb_eq in E. Z.div_mod_to_equations. nia.
  - apply Z.eqb_neq in E. Z.div_mod_to_equations. nia.
Qed.

Lemma inference_tick_mod k n :
  k <> 0 -> inference_tick k n = (n mod k =? 0).
Proof.
  intros Hk. unfold inference_tick, py_mod.
  apply Z.eqb_neq in Hk. now rewrite Hk.
Qed.

Lemma run_infer_calls self states :
  1 <= frame_skip self ->
  Z.of_nat (infer_calls (snd (run self states))) =
    Z.of_nat (infer_calls self)
    + ((frame_count self + Z.of_nat (length states)) / frame_skip self
       - frame_count self / frame_skip self).
Proof.
  revert self. induction states as [| s rest IH]; intros self Hk.
  - simpl. rewrite Z.add_0_r. lia.
  - rewrite run_cons. cbn [snd].
    rewrite IH by (rewrite get_action_frame_skip; exact Hk).
    rewrite get_action_frame_skip, get_action_frame_count.
    unfold infer_calls at 1. rewrite get_action_invoke_log.
    rewrite inference_tick_mod by lia.
    rewrite (div_succ (frame_skip self) (frame_count self) Hk).
    replace (frame_count self + 1 + Z.of_nat (length rest))
      with (frame_count self + Z.of_nat (length (s :: rest)))
      by (cbn [length]; lia).
    destruct ((frame_count self + 1) mod frame_skip self =? 0);
      unfold infer_calls; cbn [length]; lia.
Qed.

(** * Properties of the decision cache *)

(** ** Construction *)

(** C7: for every frame_skip [k >= 1] and every backend that loads,
    construction succeeds and the agent it yields has [frame_count = 0] and
    [last_action = STAY] (and keeps [k] and the loaded interpreter). *)
Theorem construct_initial_state load path k ip :
  1 <= k ->
  load path = inr ip ->
  exists a,
    __init__ load path k = inr a
    /\ frame_count a = 0
    /\ last_action a = STAY
    /\ frame_skip a = k
    /\ interpreter a = ip.
Proof.
  intros _ Hload. exists (fresh ip k).
  unfold __init__. rewrite Hload. repeat split.
Qed.

Lemma construct_initial_state_witness :
  exists a,
    __init__ demo_loader "pong_model.tflite" 4 = inr a
    /\ frame_count a = 0
    /\ last_action a = STAY
    /\ frame_skip a = 4
    /\ interpreter a = demo_interpreter.
Proof.
  apply (construct_initial_state demo_loader "pong_model.tflite" 4 demo_interpreter).
  - lia.
  - reflexivity.
Defined.

(** C2, as claimed, fails: with [frame_skip = 0 < 1] and a backend that
    loads, construction returns an agent and raises nothing. *)
Lemma construct_zero_skip_succeeds :
  0 < 1
  /\ (exists a, __init__ demo_loader "pong_model.tflite" 0 = inr a)
  /\ ~ (exists e, __init__ demo_loader "pong_model.tflite" 0 = inl e).
Proof.
  split; [lia |]. split.
  - eexists. reflexivity.
  - intros [e He]. discriminate He.
Qed.

(** C2, amended: [__init__] does not look at [frame_skip].  With an integer
    [frame_skip < 1], construction succeeds whenever the backend loads, and
    the agent holds that [frame_skip] with [frame_count = 0] and
    [last_action = STAY]; it fails only with the backend's own loading
    error. *)
Theorem construct_accepts_any_skip load path k :
  k < 1 ->
  match load path with
  | inr ip => __init__ load path k = inr (PongAgent.mk ip k 0 STAY)
  | inl e => __init__ load path k = inl e
  end.
Proof.
  intros _. unfold __init__. destruct (load path); reflexivity.
Qed.

Lemma construct_accepts_any_skip_witness :
  __init__ demo_loader "pong_model.tflite" (-3) =
    inr (PongAgent.mk demo_interpreter (-3) 0 STAY).
Proof.
  apply (construct_accepts_any_skip demo_loader "pong_model.tflite" (-3)).
  lia.
Defined.

(** ** The tick counter *)

(** C8: every call of [get_action] leaves [frame_count] exactly one higher,
    whatever the agent, the state and the outcome of the call (returned or
    raised); [get_action] is the only operation that writes it after
    construction, so after [n] calls from construction it is [n]. *)
Theorem frame_count_counts_calls load path k a0 states :
  __init__ load path k = inr a0 ->
  (forall s self, frame_count (snd (get_action s self)) = frame_count self + 1)
  /\ frame_count (snd (run a0 states)) = Z.of_nat (length states).
Proof.
  intros Hinit. split.
  - exact get_action_frame_count.
  - destruct (init_fresh _ _ _ _ Hinit) as (ip & _ & ->).
    rewrite run_frame_count. reflexivity.
Qed.

Lemma frame_count_counts_calls_witness :
  (forall s self, frame_count (snd (get_action s self)) = frame_count self + 1)
  /\ frame_count (snd (run (fresh demo_interpreter 4) (repeat demo_state 9))) =
       Z.of_nat (length (repeat demo_state 9)).
Proof.
  apply (frame_count_counts_calls demo_loader "pong_model.tflite" 4).
  reflexivity.
Defined.

(** ** Cadence *)

(** C1: for every frame_skip [k >= 1] and every sequence of N calls made on
    a freshly constructed agent, the backend is invoked on exactly
    [N / k] (floor) of them: the call at tick [n] (from 1) invokes it, once
    and on that call's state, when [n] is a multiple of [k], and does not
    invoke it otherwise; with [k = 1] every call invokes it once. *)
Theorem skip_cadence load path k a0 states :
  1 <= k ->
  __init__ load path k = inr a0 ->
  Z.of_nat (infer_calls (snd (run a0 states))) =
    Z.of_nat (infer_calls a0) + Z.of_nat (length states) / k
  /\ (forall pre s post,
        states = pre ++ s :: post ->
        let self := snd (run a0 pre) in
        invoke_log (interpreter (snd (get_action s self))) =
          if (Z.of_nat (length pre) + 1) mod k =? 0
          then [s] :: invoke_log (interpreter self)
          else invoke_log (interpreter self))
  /\ (k = 1 ->
      forall pre s post,
        states = pre ++ s :: post ->
        let self := snd (run a0 pre) in
        invoke_log (interpreter (snd (get_action s self))) =
          [s] :: invoke_log (interpreter self)).
Proof.
  intros Hk Hinit.
  destruct (init_fresh _ _ _ _ Hinit) as (ip & _ & ->).
  assert (Hstep : forall pre s,
             invoke_log (interpreter (snd (get_action s (snd (run (fresh ip k) pre))))) =
               if (Z.of_nat (length pre) + 1) mod k =? 0
               then [s] :: invoke_log (interpreter (snd (run (fresh ip k) pre)))
               else invoke_log (interpreter (snd (run (fresh ip k) pre)))).
  { intros pre s.
    rewrite get_action_invoke_log, run_frame_skip, run_frame_count.
    cbn [fresh frame_skip frame_count].
    rewrite inference_tick_mod by lia. reflexivity. }
  split; [| split].
  - rewrite run_infer_calls by exact Hk.
    cbn [fresh frame_skip frame_count].
    rewrite Z.add_0_l, Z.div_0_l by lia. lia.
  - intros pre s post _ self. apply Hstep.
  - intros -> pre s post _ self. unfold self. rewrite Hstep.
    now rewrite Z.mod_1_r.
Qed.

Lemma skip_cadence_witness :
  Z.of_nat (infer_calls (snd (run (fresh demo_interpreter 4) (repeat demo_state 9)))) =
    Z.of_nat (infer_calls (fresh demo_interpreter 4))
    + Z.of_nat (length (repeat demo_state 9)) / 4.
Proof.
  refine (proj1 (skip_cadence demo_loader "pong_model.tflite" 4
                   (fresh demo_interpreter 4) (repeat demo_state 9) _ _)).
  - lia.
  - reflexivity.
Defined.

(** ** The order on scores *)

Lemma leb_not_nan a b :
  Float32.leb a b = true ->
  Float32.isnan a = false /\ Float32.isnan b = false.
Proof. destruct a, b; simpl; intros H; try discriminate; split; reflexivity. Qed.

Lemma leb_refl a : Float32.isnan a = false -> Float32.leb a a = true.
Proof.
  destruct a; simpl; intros H; try discriminate; try reflexivity.
  apply Qle_bool_iff, Qle_refl.
Qed.

Lemma leb_trans a b c :
  Float32.leb a b = true -> Float32.leb b c = true -> Float32.leb a c = true.
Proof.
  destruct a, b, c; simpl; intros H1 H2; try discriminate; try reflexivity.
  apply Qle_bool_iff. apply Qle_trans with q0; now apply Qle_bool_iff.
Qed.

Lemma leb_total a b :
  Float32.isnan a = false -> Float32.isnan b = false ->
  Float32.leb a b = false -> Float32.leb b a = true.
Proof.
  destruct a, b; simpl; intros Ha Hb H; try discriminate; try reflexivity.
  apply Qle_bool_iff.
  destruct (Qlt_le_dec q0 q) as [Hlt | Hle].
  - now apply Qlt_le_weak.
  - apply Qle_bool_iff in Hle. congruence.
Qed.

(** ** [np.argmax] returns the first index of a greatest element *)

Lemma argmax_scan_spec xs : forall pre mp best,
  nth_error pre best = Some mp ->
  Float32.isnan mp = false ->
  (forall j y, nth_error pre j = Some y -> Float32.leb y mp = true) ->
  (forall j y, (j < best)%nat -> nth_error pre j = Some y -> Float32.leb mp y = false) ->
  exists x,
    nth_error (pre ++ xs) (argmax_scan mp best (length pre) xs) = Some x
    /\ (forall j y, nth_error (pre ++ xs) j = Some y -> Float32.le y x)
    /\ (forall j y, (j < argmax_scan mp best (length pre) xs)%nat ->
                    nth_error (pre ++ xs) j = Some y -> Float32.lt y x).
Proof.
  induction xs as [| x rest IH]; intros pre mp best Hbest Hnan Hle Hlt.
  - simpl. rewrite app_nil_r. exists mp. split; [exact Hbest |]. split.
    + intros j y Hy. right. eauto.
    + intros j y Hj Hy. split; [right; eauto |].
      intros [Hn | Hl].
      * apply Hle in Hy. apply leb_not_nan in Hy. destruct Hy. congruence.
      * rewrite (Hlt j y Hj Hy) in Hl. discriminate.
  - assert (Hb : (best < length pre)%nat)
      by (apply nth_error_Some; rewrite Hbest; discriminate).
    assert (Hsplit : forall j y, nth_error (pre ++ [x]) j = Some y ->
                                 nth_error pre j = Some y \/ y = x).
    { intros j y Hy. destruct (Nat.lt_ge_cases j (length pre)) as [Hj | Hj].
      - rewrite nth_error_app1 in Hy by exact Hj. now left.
      - rewrite nth_error_app2 in Hy by exact Hj.
        destruct (j - length pre)%nat as [| m]; simpl in Hy.
        + right. congruence.
        + destruct m; discriminate. }
    assert (Hlen : length (pre ++ [x]) = S (length pre))
      by (rewrite length_app; simpl; lia).
    replace (pre ++ x :: rest) with ((pre ++ [x]) ++ rest)
      by (rewrite <- app_assoc; reflexivity).
    simpl. destruct (Float32.leb x mp) eqn:Hx.
    + rewrite <- Hlen. apply IH; try assumption.
      * rewrite nth_error_app1 by exact Hb. exact Hbest.
      * intros j y Hy. destruct (Hsplit j y Hy) as [Hp | ->]; eauto.
      * intros j y Hj Hy. apply (Hlt j y Hj).
        rewrite nth_error_app1 in Hy by lia. exact Hy.
    + destruct (Float32.isnan x) eqn:Hxn.
      * exists x. split; [| split].
        -- rewrite <- app_assoc. rewrite nth_error_app2 by lia.
           rewrite Nat.sub_diag. reflexivity.
        -- intros j y _. left. exact Hxn.
        -- intros j y Hj Hy. split; [left; exact Hxn |].
           rewrite nth_error_app1 in Hy by (rewrite Hlen; lia).
           rewrite nth_error_app1 in Hy by exact Hj.
           apply Hle in Hy. apply leb_not_nan in Hy. destruct Hy as [Hyn _].
           intros [Hn | Hl]; [congruence |].
           destruct x; discriminate.
      * assert (Hmx : Float32.leb mp x = true) by (apply leb_total; assumption).
        rewrite <- Hlen. apply IH; try assumption.
        -- rewrite nth_error_app2 by lia. rewrite Nat.sub_diag. reflexivity.
        -- intros j y Hy. destruct (Hsplit j y Hy) as [Hp | ->].
           ++ apply leb_trans with mp; eauto.
           ++ now apply leb_refl.
        -- intros j y Hj Hy. rewrite nth_error_app1 in Hy by exact Hj.
           destruct (Float32.leb x y) eqn:Hxy; [| reflexivity].
           rewrite (leb_trans x y mp Hxy (Hle j y Hy)) in Hx. discriminate.
Qed.

Lemma np_argmax_first_greatest row :
  row <> [] ->
  exists i x,
    np_argmax row = inr (Z.of_nat i)
    /\ nth_error row i = Some x
    /\ (forall j y, nth_error row j = Some y -> Float32.le y x)
    /\ (forall j y, (j < i)%nat -> nth_error row j = Some y -> Float32.lt y x).
Proof.
  destruct row as [| x0 rest]; [congruence |]. intros _.
  unfold np_argmax. destruct (Float32.isnan x0) eqn:Hn.
  - exists 0%nat, x0. repeat split; try reflexivity.
    + now left.
    + lia.
    + lia.
  - destruct (argmax_scan_spec rest [x0] x0 0%nat) as (x & Hx & Hle & Hlt).
    + reflexivity.
    + exact Hn.
    + intros [| [| j]] y Hy; simpl in Hy; try discriminate.
      injection Hy as <-. now apply leb_refl.
    + intros j y Hj. lia.
    + exists (argmax_scan x0 0 1 rest), x. simpl in *. auto.
Qed.

(** ** Selection of the action *)

(** C6: on an inference tick whose backend call returns, the action
    returned and cached is [np.argmax] of the ScoreVector (row 0 of the
    output): an index of a greatest score, every score before it being
    strictly smaller, so that among tied greatest scores the lowest index
    is chosen.  Greatest is meant in numpy's order on float32, where a NaN
    counts above every number.  For the scores [0.5, 0.5, 0.3] the action
    is 0 (LEFT). *)
Theorem argmax_first_index_tie_break (s : StateVector) self out row :
  inference_tick (frame_skip self) (frame_count self + 1) = true ->
  graph (interpreter self) [s] = inr out ->
  nth_error out 0 = Some row ->
  row <> [] ->
  (exists i x,
     fst (get_action s self) = inr (Z.of_nat i)
     /\ last_action (snd (get_action s self)) = Z.of_nat i
     /\ nth_error row i = Some x
     /\ (forall j y, nth_error row j = Some y -> Float32.le y x)
     /\ (forall j y, (j < i)%nat -> nth_error row j = Some y -> Float32.lt y x))
  /\ (row = tie_scores -> fst (get_action s self) = inr LEFT).
Proof.
  intros Ht Hg Hrow Hne.
  assert (Hinfer : infer_action (interpreter self) s = np_argmax row).
  { unfold infer_action, subscript. now rewrite Hg, Hrow. }
  rewrite (get_action_infer s self Ht), Hinfer. cbn [fst snd last_action].
  split.
  - destruct (np_argmax_first_greatest row Hne) as (i & x & Hi & Hx & Hle & Hlt).
    exists i, x. rewrite Hi. auto.
  - intros ->. reflexivity.
Qed.

Lemma argmax_first_index_tie_break_witness :
  (exists i x,
     fst (get_action demo_state (fresh tie_interpreter 1)) = inr (Z.of_nat i)
     /\ last_action (snd (get_action demo_state (fresh tie_interpreter 1))) = Z.of_nat i
     /\ nth_error tie_scores i = Some x
     /\ (forall j y, nth_error tie_scores j = Some y -> Float32.le y x)
     /\ (forall j y, (j < i)%nat -> nth_error tie_scores j = Some y -> Float32.lt y x))
  /\ (tie_scores = tie_scores ->
      fst (get_action demo_state (fresh tie_interpreter 1)) = inr LEFT).
Proof.
  apply (argmax_first_index_tie_break demo_state (fresh tie_interpreter 1)
           [tie_scores] tie_scores).
  - reflexivity.
  - reflexivity.
  - reflexivity.
  - discriminate.
Defined.

(** ** A failing backend *)

(** C4: when the backend call of an inference tick raises [e], the call of
    [get_action] raises [e] to its caller (no action is returned),
    [last_action] is what it was before the call and [frame_count] is one
    higher. *)
Theorem failure_preserves_cache (s : StateVector) self e :
  inference_tick (frame_skip self) (frame_count self + 1) = true ->
  graph (interpreter self) [s] = inl e ->
  fst (get_action s self) = inl e
  /\ last_action (snd (get_action s self)) = last_action self
  /\ frame_count (snd (get_action s self)) = frame_count self + 1.
Proof.
  intros Ht Hg.
  assert (Hinfer : infer_action (interpreter self) s = inl e).
  { unfold infer_action. now rewrite Hg. }
  rewrite (get_action_infer s self Ht), Hinfer. repeat split.
Qed.

Lemma failure_preserves_cache_witness :
  fst (get_action [] (PongAgent.mk demo_interpreter 4 7 RIGHT)) = inl ValueError
  /\ last_action (snd (get_action [] (PongAgent.mk demo_interpreter 4 7 RIGHT))) = RIGHT
  /\ frame_count (snd (get_action [] (PongAgent.mk demo_interpreter 4 7 RIGHT))) = 7 + 1.
Proof.
  apply (failure_preserves_cache [] (PongAgent.mk demo_interpreter 4 7 RIGHT) ValueError).
  - reflexivity.
  - reflexivity.
Defined.

(** ** Replaying the cached action *)

(** Ticks strictly inside a skip window: nothing is consulted and the
    cached action is replayed. *)
Lemma run_inside_window self states :
  0 <= frame_count self ->
  frame_count self + Z.of_nat (length states) < frame_skip self ->
  run self states =
    (map (fun _ => inr (last_action self)) states,
     PongAgent.mk (interpreter self) (frame_skip self)
       (frame_count self + Z.of_nat (length states)) (last_action self)).
Proof.
  revert self. induction states as [| s rest IH]; intros self Hc Hlt.
  - simpl. rewrite Z.add_0_r. now destruct self.
  - cbn [length] in Hlt. rewrite run_cons.
    assert (Ht : inference_tick (frame_skip self) (frame_count self + 1) = false).
    { rewrite inference_tick_mod by lia.
      rewrite Z.mod_small by lia. apply Z.eqb_neq. lia. }
    rewrite (get_action_skip s self) by (assumption || lia).
    cbn [fst snd]. rewrite IH by (cbn [frame_count frame_skip]; lia).
    cbn [fst snd map length interpreter frame_skip frame_count last_action].
    replace (frame_count self + 1 + Z.of_nat (length rest))
      with (frame_count self + Z.of_nat (S (length rest))) by lia.
    reflexivity.
Qed.

(** C5: on a freshly constructed agent with frame_skip [k >= 1], the calls
    made before tick [k] all return STAY and do not touch the backend; with
    [k = 4] the calls at ticks 1, 2 and 3 return STAY and the call at tick 4
    consults the backend once, on its own state, and returns the argmax of
    the scores it gives (or raises what the consultation raises). *)
Theorem cold_start load path k a0 :
  1 <= k ->
  __init__ load path k = inr a0 ->
  (forall states,
      Z.of_nat (length states) < k ->
      fst (run a0 states) = map (fun _ => inr STAY) states
      /\ invoke_log (interpreter (snd (run a0 states))) = invoke_log (interpreter a0))
  /\ (k = 4 ->
      forall s1 s2 s3 s4 : StateVector,
        fst (run a0 [s1; s2; s3; s4]) =
          [inr STAY; inr STAY; inr STAY; infer_action (interpreter a0) s4]
        /\ invoke_log (interpreter (snd (run a0 [s1; s2; s3; s4]))) =
             [s4] :: invoke_log (interpreter a0)
        /\ (forall out row,
              graph (interpreter a0) [s4] = inr out ->
              nth_error out 0 = Some row ->
              nth_error (fst (run a0 [s1; s2; s3; s4])) 3 = Some (np_argmax row))).
Proof.
  intros Hk Hinit.
  destruct (init_fresh _ _ _ _ Hinit) as (ip & _ & ->).
  split.
  - intros states Hlen.
    rewrite run_inside_window by (cbn [fresh frame_count frame_skip]; lia).
    split; reflexivity.
  - intros -> s1 s2 s3 s4.
    assert (Hrun : run (fresh ip 4) [s1; s2; s3; s4] =
                     ([inr STAY; inr STAY; inr STAY; infer_action ip s4],
                      PongAgent.mk (infer_interpreter ip s4) 4 4
                        (match infer_action ip s4 with
                         | inl _ => STAY
                         | inr a => a
                         end))).
    { change [s1; s2; s3; s4] with ([s1; s2; s3] ++ [s4]).
      rewrite run_app.
      rewrite (run_inside_window (fresh ip 4) [s1; s2; s3])
        by (cbn [fresh frame_count frame_skip length]; lia).
      cbn [fst snd map]. rewrite run_cons.
      rewrite get_action_infer by reflexivity. reflexivity. }
    rewrite Hrun. cbn [fst snd fresh interpreter].
    split; [reflexivity |]. split; [reflexivity |].
    intros out row Hg Hrow. cbn [nth_error].
    unfold infer_action, subscript. now rewrite Hg, Hrow.
Qed.

Lemma cold_start_witness :
  (forall states,
      Z.of_nat (length states) < 4 ->
      fst (run (fresh demo_interpreter 4) states) = map (fun _ => inr STAY) states
      /\ invoke_log (interpreter (snd (run (fresh demo_interpreter 4) states))) =
           invoke_log (interpreter (fresh demo_interpreter 4)))
  /\ fst (run (fresh demo_interpreter 4) [demo_state; demo_state; demo_state; demo_state]) =
       [inr STAY; inr STAY; inr STAY; inr RIGHT].
Proof.
  pose proof (cold_start demo_loader "pong_model.tflite" 4 (fresh demo_interpreter 4)) as H.
  destruct H as [Hwindow Hfour].
  - lia.
  - reflexivity.
  - split; [exact Hwindow |].
    exact (proj1 (Hfour eq_refl demo_state demo_state demo_state demo_state)).
Defined.

Lemma last_cons {A} (a : A) (l : list A) (d : A) : last (a :: l) d = last l a.
Proof.
  revert a d. induction l as [| b l IH]; intros a d; [reflexivity |].
  change (last (a :: b :: l) d) with (last (b :: l) d).
  now rewrite !IH.
Qed.

(** The cache holds the action of the latest successful inference tick. *)
Lemma run_last_action self states :
  last_action (snd (run self states)) =
    last (inferred_actions (frame_skip self) (frame_count self + 1)
            (fst (run self states)))
         (last_action self).
Proof.
  revert self. induction states as [| s rest IH]; intros self; [reflexivity |].
  rewrite run_cons. cbn [fst snd inferred_actions].
  rewrite IH, get_action_frame_skip, get_action_frame_count.
  step_cases s self; cbn [fst snd last_action].
  - reflexivity.
  - destruct (infer_action (interpreter self) s) as [e | a].
    + reflexivity.
    + rewrite <- app_comm_cons, app_nil_l, last_cons. reflexivity.
  - reflexivity.
Qed.

Lemma run_split self pre s post :
  fst (run self (pre ++ s :: post)) =
    fst (run self pre)
    ++ fst (get_action s (snd (run self pre)))
    :: fst (run (snd (get_action s (snd (run self pre)))) post).
Proof. rewrite run_app, run_cons. reflexivity. Qed.

(** C3: on an agent constructed with a non-zero frame_skip [k], every call
    whose tick (from 1) is not a multiple of [k] returns the action that
    was returned on the latest earlier inference tick that succeeded, and
    STAY when no inference tick has succeeded yet. *)
Theorem cache_reuse load path k a0 states n :
  k <> 0 ->
  __init__ load path k = inr a0 ->
  (n < length states)%nat ->
  inference_tick k (Z.of_nat n + 1) = false ->
  nth_error (fst (run a0 states)) n =
    Some (inr (cached_action k (firstn n (fst (run a0 states))))).
Proof.
  intros Hk Hinit Hn Ht.
  destruct (init_fresh _ _ _ _ Hinit) as (ip & _ & ->).
  destruct (nth_error states n) as [s |] eqn:Hs;
    [| apply nth_error_None in Hs; lia].
  destruct (nth_error_split _ _ Hs) as (pre & post & -> & Hlen).
  rewrite run_split.
  assert (Hpre : length (fst (run (fresh ip k) pre)) = n)
    by (rewrite run_length; exact Hlen).
  rewrite nth_error_app2 by lia. rewrite Hpre, Nat.sub_diag. cbn [nth_error].
  rewrite firstn_app, Hpre, Nat.sub_diag. cbn [firstn]. rewrite app_nil_r.
  rewrite firstn_all2 by lia.
  rewrite get_action_skip.
  - cbn [fst]. rewrite run_last_action. reflexivity.
  - now rewrite run_frame_skip.
  - rewrite run_frame_skip, run_frame_count, Hlen. exact Ht.
Qed.

Lemma cache_reuse_witness :
  nth_error (fst (run (fresh demo_interpreter 4) (repeat demo_state 9))) 6 =
    Some (inr (cached_action 4
                 (firstn 6 (fst (run (fresh demo_interpreter 4) (repeat demo_state 9)))))).
Proof.
  apply (cache_reuse demo_loader "pong_model.tflite" 4 (fresh demo_interpreter 4)
           (repeat demo_state 9) 6).
  - lia.
  - reflexivity.
  - simpl. lia.
  - reflexivity.
Defined.

(** ** The range of the action *)

Lemma np_argmax_three row a :
  length row = 3%nat -> np_argmax row = inr a -> valid_action a.
Proof.
  intros Hlen Ha.
  destruct (np_argmax_first_greatest row) as (i & x & Hi & Hx & _).
  - intros ->. discriminate Hlen.
  - assert (Hlt : (i < 3)%nat)
      by (rewrite <- Hlen; apply nth_error_Some; rewrite Hx; discriminate).
    rewrite Hi in Ha. injection Ha as <-.
    unfold valid_action, LEFT, STAY, RIGHT. lia.
Qed.

Lemma infer_action_three ip s a :
  three_scores ip -> infer_action ip s = inr a -> valid_action a.
Proof.
  intros H3 Ha. unfold infer_action in Ha.
  destruct (graph ip [s]) as [e | out] eqn:Hg; [discriminate |].
  destruct (H3 _ _ Hg) as (row & Hrow & Hlen).
  unfold subscript in Ha. rewrite Hrow in Ha.
  now apply (np_argmax_three row).
Qed.

Lemma get_action_valid s self :
  three_scores (interpreter self) ->
  valid_action (last_action self) ->
  three_scores (interpreter (snd (get_action s self)))
  /\ valid_action (last_action (snd (get_action s self)))
  /\ (forall a, fst (get_action s self) = inr a -> valid_action a).
Proof.
  intros H3 Hv. split.
  - unfold three_scores. rewrite get_action_graph. exact H3.
  - step_cases s self; cbn [fst snd last_action].
    + split; [exact Hv | discriminate].
    + destruct (infer_action (interpreter self) s) as [e | a] eqn:Ha.
      * split; [exact Hv | discriminate].
      * pose proof (infer_action_three _ _ _ H3 Ha) as Hva.
        split; [exact Hva |]. intros a' Heq. injection Heq as <-. exact Hva.
    + split; [exact Hv |]. intros a' Heq. injection Heq as <-. exact Hv.
Qed.

Lemma run_valid self states :
  three_scores (interpreter self) ->
  valid_action (last_action self) ->
  valid_action (last_action (snd (run self states)))
  /\ (forall a, In (inr a) (fst (run self states)) -> valid_action a).
Proof.
  revert self. induction states as [| s rest IH]; intros self H3 Hv.
  - simpl. split; [exact Hv | contradiction].
  - rewrite run_cons. cbn [fst snd].
    destruct (get_action_valid s self H3 Hv) as (H3' & Hv' & Hr).
    destruct (IH _ H3' Hv') as (Hlast & Hall).
    split; [exact Hlast |].
    intros a [Ha | Ha]; [now apply Hr | now apply Hall].
Qed.

(** C9: when the backend returns exactly three scores whenever it returns,
    [last_action] is one of LEFT, STAY, RIGHT after construction and after
    every call of [get_action] made on an agent where it was, and every call
    that returns (does not raise) returns one of the three; so it is along
    any run from construction. *)
Theorem actions_stay_in_range load path k a0 states :
  __init__ load path k = inr a0 ->
  three_scores (interpreter a0) ->
  valid_action (last_action a0)
  /\ (forall s self,
        three_scores (interpreter self) ->
        valid_action (last_action self) ->
        valid_action (last_action (snd (get_action s self)))
        /\ (forall a, fst (get_action s self) = inr a -> valid_action a))
  /\ valid_action (last_action (snd (run a0 states)))
  /\ (forall a, In (inr a) (fst (run a0 states)) -> valid_action a).
Proof.
  intros Hinit H3.
  destruct (init_fresh _ _ _ _ Hinit) as (ip & _ & ->).
  assert (Hv : valid_action (last_action (fresh ip k))) by (right; left; reflexivity).
  split; [exact Hv |]. split.
  - intros s self H3' Hv'. apply (get_action_valid s self H3' Hv').
  - apply run_valid; assumption.
Qed.

Lemma demo_three_scores : three_scores demo_interpreter.
Proof.
  intros input out. cbn [demo_interpreter graph]. unfold demo_graph.
  destruct input as [| row [| ? ?]]; try discriminate.
  destruct (length row =? 5)%nat; [| discriminate].
  intros H. injection H as <-. exists demo_scores. split; reflexivity.
Defined.

Lemma actions_stay_in_range_witness :
  valid_action (last_action (snd (run (fresh demo_interpreter 4) (repeat demo_state 9))))
  /\ (forall a,
        In (inr a) (fst (run (fresh demo_interpreter 4) (repeat demo_state 9))) ->
        valid_action a).
Proof.
  refine (proj2 (proj2 (actions_stay_in_range demo_loader "pong_model.tflite" 4
                          (fresh demo_interpreter 4) (repeat demo_state 9) _ _))).
  - reflexivity.
  - exact demo_three_scores.
Defined.

(** ** Determinism *)

Lemma infer_action_same_backend ip1 ip2 s :
  same_backend ip1 ip2 -> infer_action ip1 s = infer_action ip2 s.
Proof. intros H. unfold infer_action. now rewrite (H [s]). Qed.

Lemma get_action_same_backend s self1 self2 :
  frame_skip self1 = frame_skip self2 ->
  frame_count self1 = frame_count self2 ->
  last_action self1 = last_action self2 ->
  same_backend (interpreter self1) (interpreter self2) ->
  fst (get_action s self1) = fst (get_action s self2)
  /\ last_action (snd (get_action s self1)) = last_action (snd (get_action s self2)).
Proof.
  intros Hk Hc Hl Hb.
  step_cases s self1.
  - rewrite (get_action_zero_skip s self2) by congruence.
    cbn [fst snd last_action]. now rewrite Hl.
  - rewrite Hk, Hc in Ht. rewrite (get_action_infer s self2 Ht).
    cbn [fst snd last_action].
    rewrite (infer_action_same_backend _ _ s Hb), Hl. split; reflexivity.
  - rewrite Hk, Hc in Ht.
    rewrite (get_action_skip s self2) by (congruence || assumption).
    cbn [fst snd last_action]. now rewrite Hl.
Qed.

Lemma run_same_backend states : forall self1 self2,
  frame_skip self1 = frame_skip self2 ->
  frame_count self1 = frame_count self2 ->
  last_action self1 = last_action self2 ->
  same_backend (interpreter self1) (interpreter self2) ->
  fst (run self1 states) = fst (run self2 states)
  /\ frame_count (snd (run self1 states)) = frame_count (snd (run self2 states))
  /\ last_action (snd (run self1 states)) = last_action (snd (run self2 states)).
Proof.
  induction states as [| s rest IH]; intros self1 self2 Hk Hc Hl Hb.
  - simpl. auto.
  - rewrite !run_cons. cbn [fst snd].
    destruct (get_action_same_backend s self1 self2 Hk Hc Hl Hb) as (Hr & Hl').
    destruct (IH (snd (get_action s self1)) (snd (get_action s self2)))
      as (Hrs & Hc' & Hl'').
    + now rewrite !get_action_frame_skip.
    + rewrite !get_action_frame_count. lia.
    + exact Hl'.
    + unfold same_backend. rewrite !get_action_graph. exact Hb.
    + rewrite Hr, Hrs. auto.
Qed.

(** C10: two agents constructed with the same frame_skip on interpreters
    that hold the same model (the same function of the input tensor,
    whatever their tensors held before) and fed the same states return the
    same sequence of outcomes and end with the same [frame_count] and
    [last_action]. *)
Theorem decisions_deterministic load1 load2 path1 path2 k a1 a2 states :
  __init__ load1 path1 k = inr a1 ->
  __init__ load2 path2 k = inr a2 ->
  same_backend (interpreter a1) (interpreter a2) ->
  fst (run a1 states) = fst (run a2 states)
  /\ frame_count (snd (run a1 states)) = frame_count (snd (run a2 states))
  /\ last_action (snd (run a1 states)) = last_action (snd (run a2 states)).
Proof.
  intros H1 H2 Hb.
  destruct (init_fresh _ _ _ _ H1) as (ip1 & _ & ->).
  destruct (init_fresh _ _ _ _ H2) as (ip2 & _ & ->).
  apply run_same_backend; try reflexivity. exact Hb.
Qed.

Lemma decisions_deterministic_witness :
  fst (run (fresh demo_interpreter 4) (repeat demo_state 9)) =
    fst (run (fresh warm_interpreter 4) (repeat demo_state 9))
  /\ frame_count (snd (run (fresh demo_interpreter 4) (repeat demo_state 9))) =
       frame_count (snd (run (fresh warm_interpreter 4) (repeat demo_state 9)))
  /\ last_action (snd (run (fresh demo_interpreter 4) (repeat demo_state 9))) =
       last_action (snd (run (fresh warm_interpreter 4) (repeat demo_state 9))).
Proof.
  apply (decisions_deterministic demo_loader warm_loader
           "pong_model.tflite" "other_model.tflite" 4).
  - reflexivity.
  - reflexivity.
  - intros input. reflexivity.
Defined.

(** * Further properties of [get_action] *)

(** ** A zero frame_skip *)

(** X1: on an agent whose frame_skip is 0, every call raises
    [ZeroDivisionError]; each still counts in [frame_count], none reaches
    the interpreter and the cached action is never replaced. *)
Theorem zero_skip_always_raises self states :
  frame_skip self = 0 ->
  run self states =
    (map (fun _ => inl ZeroDivisionError) states,
     PongAgent.mk (interpreter self) 0
       (frame_count self + Z.of_nat (length states)) (last_action self)).
Proof.
  revert self. induction states as [| s rest IH]; intros self Hk.
  - simpl. rewrite Z.add_0_r. destruct self; simpl in *. now subst.
  - rewrite run_cons, (get_action_zero_skip s self Hk). cbn [fst snd].
    rewrite IH by reflexivity.
    cbn [fst snd map interpreter frame_count last_action].
    replace (frame_count self + 1 + Z.of_nat (length rest))
      with (frame_count self + Z.of_nat (length (s :: rest)))
      by (cbn [length]; lia).
    reflexivity.
Qed.

Lemma zero_skip_always_raises_witness :
  run (fresh demo_interpreter 0) (repeat demo_state 5) =
    (map (fun _ => inl ZeroDivisionError) (repeat demo_state 5),
     PongAgent.mk demo_interpreter 0 (0 + Z.of_nat (length (repeat demo_state 5))) 1).
Proof.
  apply (zero_skip_always_raises (fresh demo_interpreter 0) (repeat demo_state 5)).
  reflexivity.
Defined.

(** ** What the backend is given *)

Lemma run_invoke_log self states :
  invoke_log (interpreter (snd (run self states))) =
    rev (inference_inputs (frame_skip self) (frame_count self + 1) states)
    ++ invoke_log (interpreter self).
Proof.
  revert self. induction states as [| s rest IH]; intros self; [reflexivity |].
  rewrite run_cons. cbn [snd inference_inputs].
  rewrite IH, get_action_frame_skip, get_action_frame_count, get_action_invoke_log.
  rewrite rev_app_distr, <- app_assoc.
  destruct (inference_tick (frame_skip self) (frame_count self + 1)); reflexivity.
Qed.


(** ** Between two inference ticks *)

Lemma inference_tick_inside k c :
  1 <= k -> c mod k + 1 < k -> inference_tick k (c + 1) = false.
Proof.
  intros Hk Hlt. rewrite inference_tick_mod by lia.
  apply Z.eqb_neq.
  rewrite <- Zplus_mod_idemp_l.
  pose proof (Z.mod_pos_bound c k ltac:(lia)) as Hb.
  rewrite Z.mod_small by lia. lia.
Qed.

Lemma mod_succ_inside k c :
  1 <= k -> c mod k + 1 < k -> (c + 1) mod k = c mod k + 1.
Proof.
  intros Hk Hlt. rewrite <- Zplus_mod_idemp_l.
  pose proof (Z.mod_pos_bound c k ltac:(lia)) as Hb.
  apply Z.mod_small. lia.
Qed.

(** X3: with frame_skip [k >= 1], calls that stay inside the current skip
    window ([frame_count mod k] does not reach [k]) all return the cached
    action, whatever their states, and leave the interpreter and the cache
    as they were: nothing is retried before the next multiple of [k], also
    after an inference that failed. *)
Theorem window_replays_cache self states :
  1 <= frame_skip self ->
  frame_count self mod frame_skip self + Z.of_nat (length states) < frame_skip self ->
  run self states =
    (map (fun _ => inr (last_action self)) states,
     PongAgent.mk (interpreter self) (frame_skip self)
       (frame_count self + Z.of_nat (length states)) (last_action self)).
Proof.
  revert self. induction states as [| s rest IH]; intros self Hk Hlt.
  - simpl. rewrite Z.add_0_r. now destruct self.
  - cbn [length] in Hlt. rewrite run_cons.
    rewrite (get_action_skip s self)
      by (try lia; apply inference_tick_inside; lia).
    cbn [fst snd]. rewrite IH.
    + cbn [fst snd map length interpreter frame_skip frame_count last_action].
      replace (frame_count self + 1 + Z.of_nat (length rest))
        with (frame_count self + Z.of_nat (S (length rest))) by lia.
      reflexivity.
    + exact Hk.
    + cbn [frame_count frame_skip]. rewrite mod_succ_inside by lia. lia.
Qed.

Lemma window_replays_cache_witness :
  run (PongAgent.mk demo_interpreter 4 8 RIGHT) (repeat demo_state 3) =
    (map (fun _ => inr RIGHT) (repeat demo_state 3),
     PongAgent.mk demo_interpreter 4
       (8 + Z.of_nat (length (repeat demo_state 3))) RIGHT).
Proof.
  apply (window_replays_cache (PongAgent.mk demo_interpreter 4 8 RIGHT)
           (repeat demo_state 3)).
  - simpl. lia.
  - reflexivity.
Defined.

(** ** The cadence only sees the count modulo the skip *)

Lemma inference_tick_opp k n : inference_tick (- k) n = inference_tick k n.
Proof.
  unfold inference_tick, py_mod.
  destruct (Z.eq_dec k 0) as [-> | Hk]; [reflexivity |].
  assert (Hk' : - k <> 0) by lia.
  apply Z.eqb_neq in Hk as E. apply Z.eqb_neq in Hk' as E'. rewrite E, E'.
  apply Bool.eq_true_iff_eq. rewrite !Z.eqb_eq.
  rewrite !Z.mod_divide by assumption.
  apply Z.divide_opp_l.
Qed.

Lemma inference_tick_add k n m : inference_tick k (n + m * k) = inference_tick k n.
Proof.
  unfold inference_tick, py_mod.
  destruct (k =? 0) eqn:E; [reflexivity |].
  apply Z.eqb_neq in E. now rewrite Z.mod_add.
Qed.

Lemma get_action_same_cadence s self1 self2 :
  interpreter self1 = interpreter self2 ->
  last_action self1 = last_action self2 ->
  (frame_skip self1 = 0 <-> frame_skip self2 = 0) ->
  inference_tick (frame_skip self1) (frame_count self1 + 1) =
    inference_tick (frame_skip self2) (frame_count self2 + 1) ->
  fst (get_action s self1) = fst (get_action s self2)
  /\ interpreter (snd (get_action s self1)) = interpreter (snd (get_action s self2))
  /\ last_action (snd (get_action s self1)) = last_action (snd (get_action s self2)).
Proof.
  intros Hip Hla Hz Hsame.
  step_cases s self1; symmetry in Hsame.
  - rewrite (get_action_zero_skip s self2) by tauto.
    cbn [fst snd interpreter last_action]. auto.
  - rewrite (get_action_infer s self2 Hsame).
    cbn [fst snd interpreter last_action]. rewrite Hip, Hla. auto.
  - rewrite (get_action_skip s self2) by tauto.
    cbn [fst snd interpreter last_action]. rewrite Hla. auto.
Qed.

Lemma run_same_cadence states : forall self1 self2,
  interpreter self1 = interpreter self2 ->
  last_action self1 = last_action self2 ->
  (frame_skip self1 = 0 <-> frame_skip self2 = 0) ->
  (forall d, inference_tick (frame_skip self1) (frame_count self1 + d) =
             inference_tick (frame_skip self2) (frame_count self2 + d)) ->
  fst (run self1 states) = fst (run self2 states)
  /\ interpreter (snd (run self1 states)) = interpreter (snd (run self2 states))
  /\ last_action (snd (run self1 states)) = last_action (snd (run self2 states)).
Proof.
  induction states as [| s rest IH]; intros self1 self2 Hip Hla Hz Ht.
  - simpl. auto.
  - rewrite !run_cons. cbn [fst snd].
    destruct (get_action_same_cadence s self1 self2 Hip Hla Hz (Ht 1))
      as (Hr & Hip' & Hla').
    destruct (IH (snd (get_action s self1)) (snd (get_action s self2)))
      as (Hrs & Hip'' & Hla''); try assumption.
    + now rewrite !get_action_frame_skip.
    + intros d. rewrite !get_action_frame_skip, !get_action_frame_count.
      rewrite <- !Z.add_assoc. apply Ht.
    + rewrite Hr, Hrs. auto.
Qed.

(** X4: a negative frame_skip is not rejected and acts as its absolute
    value: an agent holding [-k] returns, call for call, what the agent
    holding [k] returns, consults the backend on the same calls and caches
    the same actions. *)
Theorem negative_skip_acts_as_positive ip k c la states :
  fst (run (PongAgent.mk ip (- k) c la) states) =
    fst (run (PongAgent.mk ip k c la) states)
  /\ interpreter (snd (run (PongAgent.mk ip (- k) c la) states)) =
       interpreter (snd (run (PongAgent.mk ip k c la) states))
  /\ last_action (snd (run (PongAgent.mk ip (- k) c la) states)) =
       last_action (snd (run (PongAgent.mk ip k c la) states)).
Proof.
  apply run_same_cadence; cbn [interpreter last_action frame_skip frame_count].
  - reflexivity.
  - reflexivity.
  - lia.
  - intros d. apply inference_tick_opp.
Qed.

(** X5: the decisions depend on [frame_count] only through its remainder
    modulo frame_skip: shifting the counter by a multiple of frame_skip
    changes no outcome, no backend call and no cached action. *)
Theorem cadence_depends_on_count_mod_skip ip k c m la states :
  fst (run (PongAgent.mk ip k (c + m * k) la) states) =
    fst (run (PongAgent.mk ip k c la) states)
  /\ interpreter (snd (run (PongAgent.mk ip k (c + m * k) la) states)) =
       interpreter (snd (run (PongAgent.mk ip k c la) states))
  /\ last_action (snd (run (PongAgent.mk ip k (c + m * k) la) states)) =
       last_action (snd (run (PongAgent.mk ip k c la) states)).
Proof.
  apply run_same_cadence; cbn [interpreter last_action frame_skip frame_count].
  - reflexivity.
  - reflexivity.
  - tauto.
  - intros d.
    replace (c + m * k + d) with (c + d + m * k) by lia.
    apply inference_tick_add.
Qed.

(** ** Failures after the backend has answered *)

(** X6: when the backend answers an inference tick with an output that has
    no row, or whose first row is empty, the call raises ([IndexError] for
    the missing row, [ValueError] for the empty one) although the
    interpreter was invoked and its output tensor replaced; the cached
    action stays and the tick is counted. *)
Theorem empty_scores_raise_and_keep_cache (s : StateVector) self out :
  inference_tick (frame_skip self) (frame_count self + 1) = true ->
  graph (interpreter self) [s] = inr out ->
  (forall row, nth_error out 0 = Some row -> row = []) ->
  fst (get_action s self) =
    inl (match out with [] => IndexError | _ => ValueError end)
  /\ last_action (snd (get_action s self)) = last_action self
  /\ frame_count (snd (get_action s self)) = frame_count self + 1
  /\ output_tensor (interpreter (snd (get_action s self))) = out
  /\ invoke_log (interpreter (snd (get_action s self))) =
       [s] :: invoke_log (interpreter self).
Proof.
  intros Ht Hg Hrow.
  assert (Hinfer : infer_action (interpreter self) s =
                     inl (match out with [] => IndexError | _ => ValueError end)).
  { unfold infer_action, subscript. rewrite Hg.
    destruct out as [| row rest]; [reflexivity |].
    cbn [nth_error]. now rewrite (Hrow row eq_refl). }
  rewrite (get_action_infer s self Ht), Hinfer.
  unfold infer_interpreter. rewrite Hg. repeat split.
Qed.

Lemma empty_scores_raise_and_keep_cache_witness :
  fst (get_action demo_state (PongAgent.mk mute_interpreter 4 7 RIGHT)) = inl IndexError
  /\ last_action (snd (get_action demo_state (PongAgent.mk mute_interpreter 4 7 RIGHT))) = RIGHT
  /\ frame_count (snd (get_action demo_state (PongAgent.mk mute_interpreter 4 7 RIGHT))) = 7 + 1
  /\ output_tensor
       (interpreter (snd (get_action demo_state (PongAgent.mk mute_interpreter 4 7 RIGHT)))) = []
  /\ invoke_log
       (interpreter (snd (get_action demo_state (PongAgent.mk mute_interpreter 4 7 RIGHT)))) =
       [[demo_state]].
Proof.
  apply (empty_scores_raise_and_keep_cache demo_state
           (PongAgent.mk mute_interpreter 4 7 RIGHT) []).
  - reflexivity.
  - reflexivity.
  - intros row H. discriminate H.
Defined.

(** ** NaN scores *)

Lemma argmax_scan_first_nan xs : forall mp best i j,
  first_nan xs = Some j -> argmax_scan mp best i xs = (i + j)%nat.
Proof.
  induction xs as [| x rest IH]; intros mp best i j Hj; [discriminate |].
  simpl in *. destruct (Float32.isnan x) eqn:Hx.
  - injection Hj as <-. destruct x; try discriminate. simpl. lia.
  - destruct (first_nan rest) as [j' |] eqn:Hrest; [| discriminate].
    injection Hj as <-.
    destruct (Float32.leb x mp); rewrite (IH _ _ _ j' eq_refl); lia.
Qed.

(** X7: when the ScoreVector of an inference tick holds a NaN, the action
    returned and cached is the index of its first NaN, whatever the other
    scores are. *)
Theorem nan_score_wins (s : StateVector) self out row i :
  inference_tick (frame_skip self) (frame_count self + 1) = true ->
  graph (interpreter self) [s] = inr out ->
  nth_error out 0 = Some row ->
  first_nan row = Some i ->
  fst (get_action s self) = inr (Z.of_nat i)
  /\ last_action (snd (get_action s self)) = Z.of_nat i.
Proof.
  intros Ht Hg Hrow Hnan.
  assert (Hinfer : infer_action (interpreter self) s = inr (Z.of_nat i)).
  { unfold infer_action, subscript. rewrite Hg, Hrow.
    destruct row as [| x rest]; [discriminate |].
    simpl in *. destruct (Float32.isnan x).
    - injection Hnan as <-. reflexivity.
    - destruct (first_nan rest) as [j |] eqn:Hrest; [| discriminate].
      injection Hnan as <-.
      now rewrite (argmax_scan_first_nan rest x 0%nat 1%nat j Hrest). }
  rewrite (get_action_infer s self Ht), Hinfer. split; reflexivity.
Qed.

Lemma nan_score_wins_witness :
  fst (get_action demo_state (fresh nan_interpreter 1)) = inr (Z.of_nat 1)
  /\ last_action (snd (get_action demo_state (fresh nan_interpreter 1))) = Z.of_nat 1.
Proof.
  apply (nan_score_wins demo_state (fresh nan_interpreter 1) [nan_scores] nan_scores 1%nat).
  - reflexivity.
  - reflexivity.
  - reflexivity.
  - reflexivity.
Defined.

(** ** The action in closed form *)

Lemma get_action_returns_cache s self a :
  fst (get_action s self) = inr a -> last_action (snd (get_action s self)) = a.
Proof.
  step_cases s self; cbn [fst snd last_action].
  - discriminate.
  - intros ->. reflexivity.
  - intros H. now injection H.
Qed.

Lemma run_snoc self pre s :
  run self (pre ++ [s]) =
    (fst (run self pre) ++ [fst (get_action s (snd (run self pre)))],
     snd (get_action s (snd (run self pre)))).
Proof. rewrite run_app, run_cons. reflexivity. Qed.

Lemma infer_action_along_run ip k pre s :
  infer_action (interpreter (snd (run (fresh ip k) pre))) s = infer_action ip s.
Proof.
  apply infer_action_same_backend. intros input. now rewrite run_graph.
Qed.

Lemma tick_multiple k n :
  1 <= k -> 0 <= n -> (n + 1) mod k = 0 ->
  (n + 1 <? k) = false /\ k * ((n + 1) / k) - 1 = n.
Proof.
  intros Hk Hn Hm. split.
  - apply Z.ltb_ge. destruct (Z.lt_ge_cases (n + 1) k) as [Hlt | Hge]; [| lia].
    rewrite Z.mod_small in Hm by lia. lia.
  - pose proof (Z.div_mod (n + 1) k ltac:(lia)) as Hdm.
    rewrite Hm in Hdm. lia.
Qed.

Lemma tick_inside k n :
  1 <= k -> 0 <= n -> (n + 1) mod k <> 0 ->
  (n + 1) / k = n / k
  /\ (n + 1 <? k) = (n <? k)
  /\ ((n <? k) = false -> 0 <= k * (n / k) - 1 < n).
Proof.
  intros Hk Hn Hm. split; [| split].
  - rewrite div_succ by exact Hk.
    apply Z.eqb_neq in Hm. rewrite Hm. lia.
  - destruct (n <? k) eqn:E.
    + apply Z.ltb_lt in E. apply Z.ltb_lt.
      destruct (Z.eq_dec (n + 1) k) as [Heq | Hne]; [| lia].
      rewrite Heq, Z.mod_same in Hm by lia. congruence.
    + apply Z.ltb_ge in E. apply Z.ltb_ge. lia.
  - intros E. apply Z.ltb_ge in E. Z.div_mod_to_equations. nia.
Qed.

(** After any run on which the backend never failed, the cache holds STAY
    before the first inference tick and afterwards the decision for the
    state of the latest multiple-of-k tick. *)
Lemma run_cache_closed_form ip k pre :
  1 <= k ->
  (forall s, In s pre -> exists a, infer_action ip s = inr a) ->
  last_action (snd (run (fresh ip k) pre)) =
    if Z.of_nat (length pre) <? k then STAY
    else decision ip
           (nth (Z.to_nat (k * (Z.of_nat (length pre) / k) - 1)) pre []).
Proof.
  intros Hk. induction pre as [| s pre IH] using rev_ind; intros Hok.
  - simpl. destruct (0 <? k) eqn:E; [reflexivity |].
    apply Z.ltb_ge in E. lia.
  - rewrite run_snoc. cbn [snd].
    assert (IH' := IH (fun s' Hs' => Hok s' (in_or_app _ _ _ (or_introl Hs')))).
    clear IH.
    set (self := snd (run (fresh ip k) pre)) in *.
    assert (Hskip : frame_skip self = k) by (unfold self; now rewrite run_frame_skip).
    assert (Hcount : frame_count self = Z.of_nat (length pre))
      by (unfold self; now rewrite run_frame_count).
    rewrite length_app. cbn [length].
    replace (Z.of_nat (length pre + 1)) with (Z.of_nat (length pre) + 1) by lia.
    set (n := Z.of_nat (length pre)) in *.
    assert (Hn : 0 <= n) by (unfold n; lia).
    step_cases s self; [lia | |]; rewrite Hskip, Hcount in Ht;
      rewrite inference_tick_mod in Ht by lia; cbn [snd last_action].
    + apply Z.eqb_eq in Ht.
      destruct (tick_multiple k n Hk Hn Ht) as [-> ->].
      unfold n. rewrite Nat2Z.id, nth_middle.
      unfold self. rewrite infer_action_along_run.
      destruct (Hok s) as [a Ha]; [apply in_or_app; right; now left |].
      unfold decision. rewrite Ha. reflexivity.
    + apply Z.eqb_neq in Ht.
      destruct (tick_inside k n Hk Hn Ht) as (-> & -> & Hidx).
      rewrite IH'. destruct (n <? k); [reflexivity |].
      specialize (Hidx eq_refl).
      rewrite app_nth1 by (unfold n in *; lia).
      reflexivity.
Qed.

Lemma run_nth_closed_form ip k states n s :
  1 <= k ->
  (forall s', In s' states -> exists a, infer_action ip s' = inr a) ->
  nth_error states n = Some s ->
  nth_error (fst (run (fresh ip k) states)) n =
    Some (inr (if Z.of_nat n + 1 <? k then STAY
               else decision ip
                      (nth (Z.to_nat (k * ((Z.of_nat n + 1) / k) - 1)) states []))).
Proof.
  intros Hk Hok Hs.
  destruct (nth_error_split _ _ Hs) as (pre & post & -> & Hlen).
  rewrite run_split.
  rewrite nth_error_app2 by (rewrite run_length; lia).
  rewrite run_length, Hlen, Nat.sub_diag. cbn [nth_error]. f_equal.
  assert (Hpre : forall s', In s' (pre ++ [s]) -> exists a, infer_action ip s' = inr a).
  { intros s' Hin. apply Hok. apply in_app_or in Hin. apply in_or_app.
    destruct Hin as [Hin | [<- | []]]; [now left | right; now left]. }
  pose proof (run_cache_closed_form ip k (pre ++ [s]) Hk Hpre) as Hcache.
  rewrite run_snoc in Hcache. cbn [snd] in Hcache.
  rewrite length_app in Hcache. cbn [length] in Hcache.
  replace (Z.of_nat (length pre + 1)) with (Z.of_nat n + 1) in Hcache by lia.
  set (self := snd (run (fresh ip k) pre)) in *.
  assert (Hret : exists a, fst (get_action s self) = inr a).
  { assert (Hskip : frame_skip self = k) by (unfold self; now rewrite run_frame_skip).
    step_cases s self; [lia | |]; cbn [fst].
    - unfold self. rewrite infer_action_along_run.
      apply Hok. apply in_or_app. right. now left.
    - eauto. }
  destruct Hret as [a Ha]. rewrite Ha. f_equal.
  rewrite <- (get_action_returns_cache s self a Ha), Hcache.
  destruct (Z.of_nat n + 1 <? k) eqn:E; [reflexivity |].
  apply Z.ltb_ge in E.
  assert (Hidx : (Z.to_nat (k * ((Z.of_nat n + 1) / k) - 1) < length (pre ++ [s]))%nat).
  { rewrite length_app. cbn [length].
    pose proof (Z.mul_div_le (Z.of_nat n + 1) k ltac:(lia)). lia. }
  replace (pre ++ s :: post) with ((pre ++ [s]) ++ post)
    by (rewrite <- app_assoc; reflexivity).
  now rewrite (app_nth1 (pre ++ [s]) post [] Hidx).
Qed.

(** X8: on a freshly constructed agent with frame_skip [k >= 1] and a
    backend that does not fail on the states it is given, the call at tick
    [n] (from 1) returns STAY while [n < k], and afterwards the action the
    backend selects for the state of tick [k * floor(n / k)], the latest
    multiple of [k]: on an inference tick its own state, otherwise an
    earlier one. *)
Theorem steady_state_action ip k states n s :
  1 <= k ->
  (forall s', In s' states -> exists a, infer_action ip s' = inr a) ->
  nth_error states n = Some s ->
  nth_error (fst (run (fresh ip k) states)) n =
    Some (inr (if Z.of_nat n + 1 <? k then STAY
               else decision ip
                      (nth (Z.to_nat (k * ((Z.of_nat n + 1) / k) - 1)) states []))).
Proof. exact (run_nth_closed_form ip k states n s). Qed.

Lemma steady_state_action_witness :
  nth_error (fst (run (fresh demo_interpreter 4) (repeat demo_state 9))) 6 =
    Some (inr (if Z.of_nat 6 + 1 <? 4 then STAY
               else decision demo_interpreter
                      (nth (Z.to_nat (4 * ((Z.of_nat 6 + 1) / 4) - 1))
                         (repeat demo_state 9) []))).
Proof.
  apply (steady_state_action demo_interpreter 4 (repeat demo_state 9) 6%nat demo_state).
  - lia.
  - intros s' Hin. apply repeat_spec in Hin. subst s'.
    exists RIGHT. reflexivity.
  - reflexivity.
Defined.

(** * The demonstration script *)

Lemma list_getitem_valid a :
  valid_action a -> list_getitem action_names a = inr (action_name a).
Proof. intros [-> | [-> | ->]]; reflexivity. Qed.

(** While every call returns one of the three actions, the loop is the run
    of the calls plus the lines of every tenth frame. *)
Lemma game_loop_returns draw frames : forall agent console,
  Forall (fun r => exists a, r = inr a /\ valid_action a)
    (fst (run agent (map draw frames))) ->
  game_loop draw frames agent console =
    (inr tt, snd (run agent (map draw frames)),
     console ++ frame_lines frames (fst (run agent (map draw frames)))).
Proof.
  induction frames as [| f rest IH]; intros agent console Hall.
  - simpl. now rewrite app_nil_r.
  - cbn [map] in *. rewrite run_cons in *. cbn [fst snd] in *.
    destruct (Forall_inv Hall) as (a & Hr & Hv).
    apply Forall_inv_tail in Hall.
    cbn [game_loop].
    destruct (get_action (draw f) agent) as [r self1]. cbn [fst snd] in *.
    subst r. cbn [frame_lines]. rewrite (list_getitem_valid a Hv).
    destruct (f mod 10 =? 0)%nat; rewrite IH by assumption.
    + now rewrite <- app_assoc.
    + reflexivity.
Qed.


Lemma infer_action_returns ip (s : StateVector) out :
  three_scores ip -> graph ip [s] = inr out ->
  exists a, infer_action ip s = inr a /\ valid_action a.
Proof.
  intros H3 Hg. destruct (H3 _ _ Hg) as (row & Hrow & Hlen).
  destruct (np_argmax_first_greatest row) as (i & x & Hi & _).
  - intros ->. discriminate Hlen.
  - exists (Z.of_nat i).
    assert (Hinfer : infer_action ip s = inr (Z.of_nat i))
      by (unfold infer_action, subscript; now rewrite Hg, Hrow).
    split; [exact Hinfer |]. now apply (infer_action_three ip s).
Qed.

(** Every call of a run returns one of the three actions when the backend
    answers, with three scores, on the inference ticks of the run. *)
Lemma run_returns_valid states : forall self,
  frame_skip self <> 0 ->
  three_scores (interpreter self) ->
  valid_action (last_action self) ->
  (forall i s,
      nth_error states i = Some s ->
      inference_tick (frame_skip self) (frame_count self + Z.of_nat i + 1) = true ->
      exists out, graph (interpreter self) [s] = inr out) ->
  Forall (fun r => exists a, r = inr a /\ valid_action a) (fst (run self states)).
Proof.
  induction states as [| s rest IH]; intros self Hk H3 Hv Hans.
  - constructor.
  - rewrite run_cons. cbn [fst]. constructor.
    + step_cases s self; [contradiction | |]; cbn [fst].
      * destruct (Hans 0%nat s eq_refl) as [out Hg].
        { now rewrite Z.add_0_r. }
        apply (infer_action_returns _ _ out H3 Hg).
      * eauto.
    + destruct (get_action_valid s self H3 Hv) as (H3' & Hv' & _).
      apply IH; try assumption.
      * now rewrite get_action_frame_skip.
      * intros i s' Hs' Ht.
        rewrite get_action_frame_skip, get_action_frame_count in Ht.
        rewrite get_action_graph. apply (Hans (S i) s' Hs').
        replace (frame_count self + Z.of_nat (S i) + 1)
          with (frame_count self + 1 + Z.of_nat i + 1) by lia.
        exact Ht.
Qed.

(** The whole sequence of outcomes in closed form. *)
Lemma run_closed_form ip k states :
  1 <= k ->
  (forall s, In s states -> exists a, infer_action ip s = inr a) ->
  fst (run (fresh ip k) states) =
    map (fun n =>
           inr (if Z.of_nat n + 1 <? k then STAY
                else decision ip
                       (nth (Z.to_nat (k * ((Z.of_nat n + 1) / k) - 1)) states [])))
        (seq 0 (length states)).
Proof.
  intros Hk Hok. apply nth_error_ext. intros n.
  rewrite nth_error_map, nth_error_seq.
  destruct (n <? length states)%nat eqn:E.
  - apply Nat.ltb_lt in E.
    destruct (nth_error states n) as [s |] eqn:Hs;
      [| apply nth_error_None in Hs; lia].
    rewrite (run_nth_closed_form ip k states n s Hk Hok Hs). reflexivity.
  - apply Nat.ltb_ge in E. apply nth_error_None. now rewrite run_length.
Qed.

Lemma drawn_states_in (draw : nat -> StateVector) n s :
  In s (map draw (seq 0 n)) -> exists f, (f < n)%nat /\ s = draw f.
Proof.
  intros Hin. apply in_map_iff in Hin. destruct Hin as (f & <- & Hf).
  apply in_seq in Hf. exists f. split; [lia | reflexivity].
Qed.

Lemma drawn_states_nth (draw : nat -> StateVector) n i s :
  nth_error (map draw (seq 0 n)) i = Some s -> (i < n)%nat /\ s = draw i.
Proof.
  rewrite nth_error_map, nth_error_seq.
  destruct (i <? n)%nat eqn:E; [| discriminate].
  apply Nat.ltb_lt in E. cbn. intros H. injection H as <-. now split.
Qed.

(** X9: when the model loads and answers, with three scores, every state
    the script draws, the script ends normally after 100 calls and 25
    consultations of the backend, on the states of frames 3, 7, ..., 99.
    It prints ten frame lines, one every tenth frame, and none of them for
    a frame that consulted the backend: frame 0 shows STAY and frame 10j
    the action selected at the latest inference frame before it (7, 19,
    27, 39, 47, 59, 67, 79, 87). *)
Theorem main_plays_hundred_frames load (draw : nat -> StateVector) ip :
  load "pong_model.tflite"%string = inr ip ->
  three_scores ip ->
  (forall f, (f < 100)%nat -> exists out, graph ip [draw f] = inr out) ->
  exists agent,
    main load draw =
      (inr tt, Some agent,
       [ModelLoaded; FrameSkipInfo 4; GameStart;
        FrameAction 0 "정지";
        FrameAction 10 (action_name (decision ip (draw 7%nat)));
        FrameAction 20 (action_name (decision ip (draw 19%nat)));
        FrameAction 30 (action_name (decision ip (draw 27%nat)));
        FrameAction 40 (action_name (decision ip (draw 39%nat)));
        FrameAction 50 (action_name (decision ip (draw 47%nat)));
        FrameAction 60 (action_name (decision ip (draw 59%nat)));
        FrameAction 70 (action_name (decision ip (draw 67%nat)));
        FrameAction 80 (action_name (decision ip (draw 79%nat)));
        FrameAction 90 (action_name (decision ip (draw 87%nat)));
        GameOver])
    /\ frame_count agent = 100
    /\ invoke_log (interpreter agent) =
         rev (map (fun j => [draw (4 * j + 3)%nat]) (seq 0 25)) ++ invoke_log ip.
Proof.
  intros Hload H3 Hans.
  exists (snd (run (fresh ip 4) (map draw (seq 0 100)))).
  assert (Hall : Forall (fun r => exists a, r = inr a /\ valid_action a)
                   (fst (run (fresh ip 4) (map draw (seq 0 100))))).
  { apply run_returns_valid; cbn [fresh frame_skip interpreter last_action].
    - lia.
    - exact H3.
    - right; left; reflexivity.
    - intros i s Hs _. apply drawn_states_nth in Hs as [Hi ->]. now apply Hans. }
  assert (Hok : forall s, In s (map draw (seq 0 100)) ->
                          exists a, infer_action ip s = inr a).
  { intros s Hin. apply drawn_states_in in Hin as (f & Hf & ->).
    destruct (Hans f Hf) as [out Hg].
    destruct (infer_action_returns ip (draw f) out H3 Hg) as (a & Ha & _).
    now exists a. }
  split; [| split].
  - unfold main, __init__. rewrite Hload.
    change (PongAgent.mk ip 4 0 1) with (fresh ip 4).
    rewrite (game_loop_returns draw (seq 0 100) (fresh ip 4) _ Hall).
    rewrite (run_closed_form ip 4 _ ltac:(lia) Hok).
    reflexivity.
  - rewrite run_frame_count, length_map, length_seq. reflexivity.
  - rewrite run_invoke_log. f_equal.
Qed.

Lemma main_plays_hundred_frames_witness :
  exists agent,
    main demo_loader (fun _ => demo_state) =
      (inr tt, Some agent,
       [ModelLoaded; FrameSkipInfo 4; GameStart;
        FrameAction 0 "정지";
        FrameAction 10 (action_name (decision demo_interpreter demo_state));
        FrameAction 20 (action_name (decision demo_interpreter demo_state));
        FrameAction 30 (action_name (decision demo_interpreter demo_state));
        FrameAction 40 (action_name (decision demo_interpreter demo_state));
        FrameAction 50 (action_name (decision demo_interpreter demo_state));
        FrameAction 60 (action_name (decision demo_interpreter demo_state));
        FrameAction 70 (action_name (decision demo_interpreter demo_state));
        FrameAction 80 (action_name (decision demo_interpreter demo_state));
        FrameAction 90 (action_name (decision demo_interpreter demo_state));
        GameOver])
    /\ frame_count agent = 100
    /\ invoke_log (interpreter agent) =
         rev (map (fun j => [(fun _ : nat => demo_state) (4 * j + 3)%nat]) (seq 0 25))
         ++ invoke_log demo_interpreter.
Proof.
  apply (main_plays_hundred_frames demo_loader (fun _ => demo_state) demo_interpreter).
  - reflexivity.
  - exact demo_three_scores.
  - intros f _. exists [demo_scores]. reflexivity.
Defined.






(** ** What a run never changes *)

(** X11: no call of [get_action] writes [frame_skip] or replaces the loaded
    model: after any run, whatever was returned or raised on the way, the
    agent holds the frame_skip and the model it was constructed with. *)
Theorem configuration_is_never_modified self states :
  frame_skip (snd (run self states)) = frame_skip self
  /\ graph (interpreter (snd (run self states))) = graph (interpreter self).
Proof. split; [apply run_frame_skip | apply run_graph]. Qed.
